(** * wallabag-kindle-consumer: the registration view and its validator

    A shallow embedding of [wallabag_kindle_consumer/interface.py]
    ([Validator], [ViewBase], [IndexView.post]) and the properties of the
    registration flow proved about it.

    Python values are modelled as follows.
    - [str] is [string]; a value that may be [None] is [option string].
    - the submitted form ([aiohttp]'s multi-dict) is an association list;
      [k in d] and [d[k]] look at the first entry with key [k].
    - a [dict] of messages is a [gmap string string]; [d.update(e)] is the
      union that prefers [e].
    - the third-party [email_validator.validate_email] is a parameter: it
      returns the normalised address, or [None] where the library raises
      [EmailNotValidError].
    - [wallabag.get_token] and the storage session live in modules outside
      this file; the first is a parameter over an abstract state of the
      remote service, the second a list of rows with a pending list.
    - what the view does outside itself is recorded, in order, in a trace of
      events. *)

From stdpp Require Import gmap strings list fin_maps.
From Stdlib Require Import Ascii String.

Local Open Scope string_scope.

(** ** Strings *)

(** [len(s)] *)
Definition len (s : string) : nat := String.length s.

(** [s.endswith(suffix)]: the last [len(suffix)] characters of [s] are
    [suffix], compared character by character. *)
Definition endswith (s suffix : string) : bool :=
  (len suffix <=? len s)%nat
  && String.eqb (substring (len s - len suffix) (len suffix) s) suffix.

Arguments endswith : simpl never.

(** ASCII lower-casing of one character and of a string ([str.lower] on the
    ASCII range); used only to state case-insensitive matching. *)
Definition lower_ascii (c : ascii) : ascii :=
  let n := nat_of_ascii c in
  if (65 <=? n)%nat && (n <=? 90)%nat then ascii_of_nat (n + 32) else c.

Fixpoint lower (s : string) : string :=
  match s with
  | EmptyString => EmptyString
  | String c r => String (lower_ascii c) (lower r)
  end.

(** [s.lower().endswith(suffix.lower())] *)
Definition iendswith (s suffix : string) : bool :=
  endswith (lower s) (lower suffix).

(** The part of an address after its last ["@"], if it has one. *)
Fixpoint domain_part (s : string) : option string :=
  match s with
  | EmptyString => None
  | String c r =>
      match domain_part r with
      | Some d => Some d
      | None => if Ascii.eqb c "@" then Some r else None
      end
  end.

(** What the normalisation of [email_validator] promises about the address it
    returns: the domain part carries no upper-case letter. *)
Definition lower_domain (v : string) : Prop :=
  ∃ d, domain_part v = Some d ∧ lower d = d.

(** ** The submitted form *)

Definition MultiDict := list (string * string).

(** [d[k]], defined where [k in d]. *)
Fixpoint getitem (k : string) (d : MultiDict) : option string :=
  match d with
  | [] => None
  | (k', x) :: d' => if String.eqb k k' then Some x else getitem k d'
  end.

(** The guard of every field is [k not in d or 0 == len(d[k])].  [given k d]
    is [None] where the guard holds and [Some d[k]] where it does not. *)
Definition given (k : string) (d : MultiDict) : option string :=
  match getitem k d with
  | None => None
  | Some x => if Nat.eqb 0 (len x) then None else Some x
  end.

(** ** class Validator *)

Record Validator := mkValidator {
  data : MultiDict;
  errors : gmap string string;
  username : option string;
  password : option string;
  kindle_email : option string;
  notify_email : option string
}.

(** [Validator.__init__] (the event loop is only used to reach the
    executor that runs [validate_email]). *)
Definition Validator_init (d : MultiDict) : Validator :=
  mkValidator d ∅ None None None None.

Definition set_username (x : option string) (self : Validator) : Validator :=
  mkValidator (data self) (errors self) x (password self)
              (kindle_email self) (notify_email self).

Definition set_password (x : option string) (self : Validator) : Validator :=
  mkValidator (data self) (errors self) (username self) x
              (kindle_email self) (notify_email self).

Definition set_kindle_email (x : option string) (self : Validator) : Validator :=
  mkValidator (data self) (errors self) (username self) (password self)
              x (notify_email self).

Definition set_notify_email (x : option string) (self : Validator) : Validator :=
  mkValidator (data self) (errors self) (username self) (password self)
              (kindle_email self) x.

(** [self.errors.update(e)] *)
Definition update_errors (e : gmap string string) (self : Validator) : Validator :=
  mkValidator (data self) (e ∪ errors self) (username self) (password self)
              (kindle_email self) (notify_email self).

(** The property [success]. *)
Definition success (self : Validator) : bool := Nat.eqb 0 (size (errors self)).

Definition msg_username := "Username not given or empty".
Definition msg_password := "Password not given or empty".
Definition msg_kindle_missing := "Kindle email address not given or empty".
Definition msg_kindle_domain :=
  "Given Kindle email does not end with @kindle.com or @free.kindle.com".
Definition msg_kindle_invalid := "Kindle email is not a valid email address".
Definition msg_notify_missing := "Notification email not given or empty".
Definition msg_notify_invalid := "Notification email is not a valid email address".

(** [validate_credentials]: it never awaits, so it runs in one piece. *)
Definition validate_credentials (self : Validator) : Validator * bool :=
  let errs : gmap string string := ∅ in
  let '(self, errs) :=
    match given "username" (data self) with
    | None => (self, <["username" := msg_username]> errs)
    | Some x => (set_username (Some x) self, errs)
    end in
  let '(self, errs) :=
    match given "password" (data self) with
    | None => (self, <["password" := msg_password]> errs)
    | Some x => (set_password (Some x) self, errs)
    end in
  (update_errors errs self, Nat.eqb 0 (size errs)).

Section Registration.

(** [email_validator.validate_email(address)['email']]; [None] stands for
    [EmailNotValidError]. *)
Variable validate_email : string → option string.

(** *** validate_emails, piece by piece

    The coroutine is suspended twice at most, once at each
    [await self._validate_email(...)].  [kindle_checked] and
    [notify_checked] are what it does when the awaited result arrives. *)

(** Lines 50-55, with the result of the await. *)
Definition kindle_checked (r : option string) (self : Validator)
    (errs : gmap string string) : Validator * gmap string string :=
  match r with
  | Some kindleEmail =>
      if endswith kindleEmail "@kindle.com" || endswith kindleEmail "@free.kindle.com"
      then (set_kindle_email (Some kindleEmail) self, errs)
      else (self, <["kindleEmail" := msg_kindle_domain]> errs)
  | None => (self, <["kindleEmail" := msg_kindle_invalid]> errs)
  end.

(** Lines 61-63, with the result of the await. *)
Definition notify_checked (r : option string) (self : Validator)
    (errs : gmap string string) : Validator * gmap string string :=
  match r with
  | Some notifyEmail => (set_notify_email (Some notifyEmail) self, errs)
  | None => (self, <["notifyEmail" := msg_notify_invalid]> errs)
  end.

(** Lines 65-66. *)
Definition emails_return (self : Validator) (errs : gmap string string)
    : Validator * bool :=
  (update_errors errs self, Nat.eqb 0 (size errs)).

(** [validate_emails] run without interruption. *)
Definition validate_emails (self : Validator) : Validator * bool :=
  let errs : gmap string string := ∅ in
  let '(self, errs) :=
    match given "kindleEmail" (data self) with
    | None => (self, <["kindleEmail" := msg_kindle_missing]> errs)
    | Some address => kindle_checked (validate_email address) self errs
    end in
  let '(self, errs) :=
    match given "notifyEmail" (data self) with
    | None => (self, <["notifyEmail" := msg_notify_missing]> errs)
    | Some address => notify_checked (validate_email address) self errs
    end in
  emails_return self errs.

(** The same coroutine as a task of the event loop: where it stands, with
    its local [errors] and the address handed to the executor. *)
Inductive emails_task :=
| Start
| AwaitKindle (errs : gmap string string) (address : string)
| AwaitNotify (errs : gmap string string) (address : string)
| Returned (r : bool).

(** From line 57 to the next suspension or to the end. *)
Definition emails_notify (self : Validator) (errs : gmap string string)
    : Validator * emails_task :=
  match given "notifyEmail" (data self) with
  | None =>
      let '(self, r) :=
        emails_return self (<["notifyEmail" := msg_notify_missing]> errs) in
      (self, Returned r)
  | Some address => (self, AwaitNotify errs address)
  end.

(** One turn of the task: it runs on the validator as the other task left
    it, up to its next [await] or its [return]. *)
Definition emails_resume (self : Validator) (t : emails_task)
    : Validator * emails_task :=
  match t with
  | Start =>
      match given "kindleEmail" (data self) with
      | None => emails_notify self (<["kindleEmail" := msg_kindle_missing]> ∅)
      | Some address => (self, AwaitKindle ∅ address)
      end
  | AwaitKindle errs address =>
      let '(self, errs) := kindle_checked (validate_email address) self errs in
      emails_notify self errs
  | AwaitNotify errs address =>
      let '(self, errs) := notify_checked (validate_email address) self errs in
      let '(self, r) := emails_return self errs in
      (self, Returned r)
  | Returned r => (self, Returned r)
  end.

Fixpoint emails_run (turns : nat) (self : Validator) (t : emails_task)
    : Validator * emails_task :=
  match turns with
  | O => (self, t)
  | S turns' =>
      let '(self, t) := emails_resume self t in emails_run turns' self t
  end.

Definition task_result (t : emails_task) : option bool :=
  match t with Returned r => Some r | _ => None end.

(** [asyncio.gather(validator.validate_emails(),
    validator.validate_credentials())] on the shared validator.
    [validate_credentials] has no [await]: it runs in one piece, after the
    emails task has had [n] turns (the event loop gives it one); the emails
    task then runs on to its end, three turns at most.  The value is the
    validator after the join and the two results. *)
Definition gather (n : nat) (self : Validator)
    : Validator * (option bool * bool) :=
  let '(self, t) := emails_run n self Start in
  let '(self, rc) := validate_credentials self in
  let '(self, t) := emails_run 3 self t in
  (self, (task_result t, rc)).

(** ** models.User, the storage session and the wallabag client *)

(** [models.User(name=..., kindle_mail=..., email=...)]: the three columns
    this view fills; each holds what the validator holds, a string or
    [None]. *)
Record User := mkUser {
  name : option string;
  kindle_mail : option string;
  email : option string
}.

(** What the view does to the world outside it, in the order it does it. *)
Inductive Event :=
| UserConstructed (u : User)
| SessionEntered
| Queried (n : option string) (count : nat)
| TokenRequested (u : User) (passwd : option string) (granted : bool)
| Added (u : User)
| Committed
| SessionLeft.

(** The state of the remote wallabag server and of the connection to it. *)
Variable Wallabag : Type.

(** [wallabag.get_token(user, passwd)], defined in the module [wallabag]
    outside this file, is a parameter.  The view only tests its result for
    truth: [true] is a token obtained, [false] any failure to obtain one. *)
Variable get_token : Wallabag → User → option string → bool * Wallabag.

(** Configuration read by [_template]: [self._cfg.wallabag_host] and the tag
    names [[t.tag for t in wallabag.make_tags(self._cfg.tag)]]. *)
Variable cfg_wallabag_host : string.
Variable cfg_tags : list string.

(** ** class ViewBase *)

Record ViewBase := mkView {
  _errors : gmap string string;
  _data : MultiDict;
  _messages : list string
}.

(** [ViewBase.__init__]: one view object is made for each request. *)
Definition ViewBase_init : ViewBase := mkView ∅ [] [].

Record State := mkState {
  view : ViewBase;
  rows : list User;      (* the committed rows of the user table *)
  pending : list User;   (* added to the open session, not committed *)
  remote : Wallabag;
  trace : list Event
}.

(** Code that reads and changes the state. *)
Definition M (A : Type) : Type := State → A * State.

#[local] Instance M_ret : MRet M := λ A (a : A) st, (a, st).
#[local] Instance M_bind : MBind M :=
  λ A B (f : A → M B) (m : M A) st, let '(a, st') := m st in f a st'.

Definition with_view (f : ViewBase → ViewBase) : M unit :=
  λ st, (tt, mkState (f (view st)) (rows st) (pending st) (remote st) (trace st)).

Definition emit (e : Event) : M unit :=
  λ st, (tt, mkState (view st) (rows st) (pending st) (remote st) (trace st ++ [e])).

(** [self._errors.update(errors)] *)
Definition _add_errors (e : gmap string string) : M unit :=
  with_view (λ v, mkView (e ∪ _errors v) (_data v) (_messages v)).

(** [self._data = data] *)
Definition _set_data (d : MultiDict) : M unit :=
  with_view (λ v, mkView (_errors v) d (_messages v)).

(** [self._messages.append(msg)] *)
Definition _add_message (msg : string) : M unit :=
  with_view (λ v, mkView (_errors v) (_data v) (_messages v ++ [msg])).

(** The variables handed to the template. *)
Record Response := mkResponse {
  vars_errors : gmap string string;
  vars_data : MultiDict;
  vars_messages : list string;
  vars_wallabag_host : string;
  vars_tags : list string
}.

(** [self._template({})] *)
Definition _template : M Response :=
  λ st, (mkResponse (_errors (view st)) (_data (view st)) (_messages (view st))
                    cfg_wallabag_host cfg_tags, st).

(** Modelled from the spec: the session of [models.context_session] is
    defined in the module [models], outside this file.  Entering the [with]
    block opens a session with nothing pending; leaving it drops what was
    not committed. *)
Definition with_session {A} (body : M A) : M A :=
  emit SessionEntered;;
  (λ st, (tt, mkState (view st) (rows st) [] (remote st) (trace st)));;
  r ← body;
  (λ st, (tt, mkState (view st) (rows st) [] (remote st) (trace st)));;
  emit SessionLeft;;
  mret r.

(** Modelled from the spec:
    [session.query(models.User.name).filter(models.User.name == n).count()],
    the number of stored users called [n]. *)
Definition count_named (n : option string) (l : list User) : nat :=
  List.length (filter (λ u, name u = n) l).

Definition session_count (n : option string) : M nat :=
  λ st, let c := count_named n (rows st) in
        (c, mkState (view st) (rows st) (pending st) (remote st)
                    (trace st ++ [Queried n c])).

(** Modelled from the spec: [session.add(user)]. *)
Definition session_add (u : User) : M unit :=
  λ st, (tt, mkState (view st) (rows st) (pending st ++ [u]) (remote st)
                     (trace st ++ [Added u])).

(** Modelled from the spec: [session.commit()], one write of all that is
    pending. *)
Definition session_commit : M unit :=
  λ st, (tt, mkState (view st) (rows st ++ pending st) [] (remote st)
                     (trace st ++ [Committed])).

(** [await self._wallabag.get_token(user, passwd)] *)
Definition wallabag_get_token (u : User) (passwd : option string) : M bool :=
  λ st, let '(granted, w) := get_token (remote st) u passwd in
        (granted, mkState (view st) (rows st) (pending st) w
                          (trace st ++ [TokenRequested u passwd granted])).

(** ** class IndexView *)

Definition msg_user := "User is already registered".
Definition msg_auth := "Cannot authenticate at wallabag server to get a token".
Definition msg_registered := "User successfully registered".

(** [IndexView.post], for the submitted form [submitted]; [n] is the point
    at which the event loop runs [validate_credentials] (see [gather]). *)
Definition post (n : nat) (submitted : MultiDict) : M Response :=
  _set_data submitted;;
  let validator := (gather n (Validator_init submitted)).1 in
  _add_errors (errors validator);;
  (if success validator then
     let user := mkUser (username validator) (kindle_email validator)
                        (notify_email validator) in
     emit (UserConstructed user);;
     with_session (
       c ← session_count (username validator);
       if negb (Nat.eqb c 0) then
         _add_errors {["user" := msg_user]}
       else
         granted ← wallabag_get_token user (password validator);
         if negb granted then
           _add_errors {["auth" := msg_auth]}
         else
           session_add user;;
           session_commit;;
           _add_message msg_registered;;
           _set_data [])
   else mret tt);;
  _template.

(** A request: a new view, the table as it stands, the remote service as it
    stands, and nothing done yet. *)
Definition request (n : nat) (submitted : MultiDict) (table : list User)
    (w : Wallabag) : Response * State :=
  post n submitted (mkState ViewBase_init table [] w []).

(** ** Stand-ins used to run the view on concrete requests *)

(** A syntax validator that knows four addresses and lower-cases their
    domains as [email_validator] does. *)
Definition stub_validate_email (address : string) : option string :=
  if String.eqb address "alice@kindle.com" then Some "alice@kindle.com"
  else if String.eqb address "Bob@Free.Kindle.COM" then Some "Bob@free.kindle.com"
  else if String.eqb address "alice@example.com" then Some "alice@example.com"
  else if String.eqb address "Carol@Example.ORG" then Some "Carol@example.org"
  else None.

(** A syntax validator that hands every address back as it came. *)
Definition stub_validate_raw (address : string) : option string := Some address.

(** A syntax validator that knows one address, written with an ideographic
    full stop in its domain, and returns it with a plain one, as the UTS-46
    step of [email_validator] does with label separators. *)
Definition stub_validate_folding (address : string) : option string :=
  if String.eqb address "a@kindle。com" then Some "a@kindle.com" else None.

(** A wallabag server that grants a token to the password ["secret"] only
    and counts the requests it has seen. *)
Definition stub_get_token (seen : nat) (u : User) (passwd : option string)
    : bool * nat :=
  (bool_decide (passwd = Some "secret"), S seen).

Definition alice_form : MultiDict :=
  [("username", "alice"); ("password", "secret");
   ("kindleEmail", "alice@kindle.com"); ("notifyEmail", "alice@example.com")].

Definition bob_form : MultiDict :=
  [("username", "bob"); ("password", "wrong");
   ("kindleEmail", "Bob@Free.Kindle.COM"); ("notifyEmail", "Carol@Example.ORG")].

Definition alice_user : User :=
  mkUser (Some "alice") (Some "alice@kindle.com") (Some "alice@example.com").

(** A third form: a Kindle address and a notification address written with
    capitals, and the password the stand-in server accepts. *)
Definition carol_form : MultiDict :=
  [("username", "carol"); ("password", "secret");
   ("kindleEmail", "Bob@Free.Kindle.COM"); ("notifyEmail", "Carol@Example.ORG")].

(** A form without a username and with addresses that are not addresses. *)
Definition broken_form : MultiDict :=
  [("username", ""); ("password", "secret");
   ("kindleEmail", "nonsense"); ("notifyEmail", "also nonsense")].

(** ** Notions used in the statements *)

(** The validator of a request after the join of line 120. *)
Definition validated (n : nat) (d : MultiDict) : Validator :=
  (gather n (Validator_init d)).1.

(** The user object of line 125. *)
Definition constructed (v : Validator) : User :=
  mkUser (username v) (kindle_email v) (notify_email v).

Definition respond (e : gmap string string) (d : MultiDict) (ms : list string)
    : Response :=
  mkResponse e d ms cfg_wallabag_host cfg_tags.

Definition state_after (e : gmap string string) (d : MultiDict)
    (ms : list string) (table : list User) (w : Wallabag) (tr : list Event)
    : State :=
  mkState (mkView e d ms) table [] w tr.

(** The outcome of a request that stops at the uniqueness check. *)
Definition rejected_as_registered (table : list User) (w : Wallabag)
    (r : Response * State) : Prop :=
  vars_errors r.1 = {["user" := msg_user]}
  ∧ vars_messages r.1 = []
  ∧ rows r.2 = table
  ∧ remote r.2 = w
  ∧ (∀ u p g, TokenRequested u p g ∉ trace r.2)
  ∧ (∀ u, Added u ∉ trace r.2).

(** The reading of the lifecycle in which the user object only exists once
    a token has been granted: every construction in a trace comes after a
    granted token request. *)
Definition constructed_after_token (tr : list Event) : Prop :=
  ∀ i u, tr !! i = Some (UserConstructed u) →
    ∃ j u' p, j < i ∧ tr !! j = Some (TokenRequested u' p true).

(** The local errors of the emails task never name a credential field. *)
Definition cred_free (errs : gmap string string) : Prop :=
  errs !! "username" = None ∧ errs !! "password" = None.

Definition task_ok (t : emails_task) : Prop :=
  match t with
  | AwaitKindle errs _ | AwaitNotify errs _ => cred_free errs
  | Start | Returned _ => True
  end.

(** ** The page itself, and requests one after the other *)

(** [IndexView.get] *)
Definition get : M Response := _template.

(** What reaches the route ["/"] (see [App.setup_routes]): a GET, or a POST
    with its form; [n] is as in [post]. *)
Inductive Request :=
| GET
| POST (n : nat) (submitted : MultiDict).

(** One request on a view made for it. *)
Definition handle (q : Request) (table : list User) (w : Wallabag)
    : Response * State :=
  match q with
  | GET => get (mkState ViewBase_init table [] w [])
  | POST n d => request n d table w
  end.

(** Requests handled one after the other: each has its own view, and finds
    the table and the remote service as the one before left them. *)
Fixpoint serve (qs : list Request) (table : list User) (w : Wallabag)
    : list Response * (list User * Wallabag) :=
  match qs with
  | [] => ([], (table, w))
  | q :: qs' =>
      let '(r, st) := handle q table w in
      let '(rs, final) := serve qs' (rows st) (remote st) in
      (r :: rs, final)
  end.

(** The four fields of the form. *)
Definition field_names : gset string :=
  {["username"; "password"; "kindleEmail"; "notifyEmail"]}.

(** No two rows of the table have the same name. *)
Definition unique_names (table : list User) : Prop :=
  NoDup (name <$> table).

(** The test of line 50, on a stored row. *)
Definition kindle_mail_ok (u : User) : bool :=
  match kindle_mail u with
  | Some k => endswith k "@kindle.com" || endswith k "@free.kindle.com"
  | None => false
  end.

(** ** Facts about strings *)

Lemma substring_all (t : string) : substring 0 (len t) t = t.
Proof. induction t as [|c t IH]; simpl; [done|]. by rewrite IH. Qed.

Lemma substring_skip (p t : string) :
  substring (len p) (len t) (String.append p t) = t.
Proof. induction p as [|c p IH]; simpl; [apply substring_all|exact IH]. Qed.

Lemma len_append (p t : string) : len (String.append p t) = len p + len t.
Proof. unfold len. induction p as [|c p IH]; simpl; [done|]. by rewrite IH. Qed.

Lemma substring_split (s : string) (n : nat) :
  (n ≤ len s)%nat → ∃ p, s = String.append p (substring n (len s - n) s).
Proof.
  revert n. induction s as [|c s IH]; intros n Hn.
  - exists EmptyString. by destruct n.
  - destruct n as [|n].
    + exists EmptyString. rewrite Nat.sub_0_r. symmetry. apply substring_all.
    + unfold len in *. simpl in *. destruct (IH n) as [p Hp]; [lia|].
      exists (String c p). by rewrite Hp at 1.
Qed.

(** [endswith] finds exactly the strings that are something followed by the
    suffix. *)
Lemma endswith_spec (s t : string) :
  endswith s t = true ↔ ∃ p, s = String.append p t.
Proof.
  unfold endswith. rewrite andb_true_iff, Nat.leb_le, String.eqb_eq. split.
  - intros [Hle Hsub].
    destruct (substring_split s (len s - len t)) as [p Hp]; [lia|].
    exists p. replace (len s - (len s - len t)) with (len t) in Hp by lia.
    by rewrite Hsub in Hp.
  - intros [p ->]. rewrite len_append. split; [lia|].
    replace (len p + len t - len t) with (len p) by lia.
    apply substring_skip.
Qed.

Lemma lower_append (p t : string) :
  lower (String.append p t) = String.append (lower p) (lower t).
Proof. induction p as [|c p IH]; simpl; [done|]. by rewrite IH. Qed.

Lemma lower_ascii_at (c : ascii) : Ascii.eqb (lower_ascii c) "@" = Ascii.eqb c "@".
Proof. by destruct c as [[] [] [] [] [] [] [] []]. Qed.

Lemma domain_part_lower (s : string) :
  domain_part (lower s) = lower <$> domain_part s.
Proof.
  induction s as [|c s IH]; simpl; [done|].
  rewrite IH, lower_ascii_at. destruct (domain_part s); simpl; [done|].
  by destruct (Ascii.eqb c "@").
Qed.

Lemma domain_part_append (p t d : string) :
  domain_part t = Some d → domain_part (String.append p t) = Some d.
Proof. intros Ht. induction p as [|c p IH]; simpl; [done|]. by rewrite IH. Qed.

Lemma domain_part_split (s d : string) :
  domain_part s = Some d → ∃ p, s = String.append p (String "@" d).
Proof.
  revert d. induction s as [|c s IH]; intros d; simpl; [done|].
  destruct (domain_part s) as [d'|] eqn:Hs.
  - intros [= <-]. destruct (IH d') as [p ->]; [done|]. by exists (String c p).
  - destruct (Ascii.eqb_spec c "@") as [->|]; [|done].
    intros [= <-]. by exists EmptyString.
Qed.

(** On an address whose domain part is lower-case, matching a lower-case
    domain suffix with or without regard to case is the same thing. *)
Lemma iendswith_lower_domain (v t : string) :
  lower_domain v → domain_part (String "@" t) = Some t → lower t = t →
  iendswith v (String "@" t) = endswith v (String "@" t).
Proof.
  intros (d & Hd & Hlow) Ht Hlt.
  apply eq_true_iff_eq. unfold iendswith. rewrite !endswith_spec.
  simpl. rewrite Hlt. split.
  - intros [p Hp].
    assert (domain_part (lower v) = Some t) as Hv
      by (rewrite Hp; by apply domain_part_append).
    rewrite domain_part_lower, Hd in Hv. simpl in Hv. rewrite Hlow in Hv.
    injection Hv as ->. by apply domain_part_split.
  - intros [p ->]. exists (lower p). rewrite lower_append. simpl. by rewrite Hlt.
Qed.

(** ** Facts about the two validation passes *)

Lemma union_swap (e1 e2 m : gmap string string) :
  (∀ k, e1 !! k = None ∨ e2 !! k = None) →
  e1 ∪ (e2 ∪ m) = e2 ∪ (e1 ∪ m).
Proof.
  intros H. apply map_eq. intros k. rewrite !lookup_union.
  destruct (H k) as [-> | ->]; by destruct (e1 !! k), (e2 !! k), (m !! k).
Qed.

Ltac sep_keys :=
  let k := fresh "k" in
  intros k;
  destruct (decide (k = "username")) as [->|];
  [right|destruct (decide (k = "password")) as [->|]; [right|left]];
  rewrite ?lookup_insert_ne by done;
  first [assumption | apply lookup_empty].

Ltac unfold_passes :=
  unfold validate_credentials, validate_emails, emails_resume, emails_notify,
    emails_return, kindle_checked, notify_checked, update_errors,
    set_username, set_password, set_kindle_email, set_notify_email in *.

Ltac reduce_passes :=
  cbn [fst snd data errors username password kindle_email notify_email
       emails_run task_result task_ok] in *.

(** Case analysis on what the passes look at: the four fields, the verdict
    of the syntax validator and the suffix test. *)
Ltac split_passes :=
  reduce_passes; unfold_passes; reduce_passes;
  repeat (match goal with
          | H : given ?k ?d = _ |- context [given ?k ?d] => rewrite H
          | H : validate_email ?a = _ |- context [validate_email ?a] =>
              rewrite H
          | |- context [given ?k ?d] =>
              destruct (given k d) eqn:?
          | |- context [validate_email ?a] =>
              destruct (validate_email a) eqn:?
          | |- context [endswith ?a ?b || endswith ?a ?c] =>
              destruct (endswith a b || endswith a c) eqn:?
          end; unfold_passes; reduce_passes).

Lemma emails_resume_ok (self : Validator) (t : emails_task) :
  task_ok t → task_ok (emails_resume self t).2.
Proof.
  intros Ht. destruct t; split_passes; unfold cred_free in *; try exact I;
    rewrite ?lookup_insert_ne by done; try assumption;
    split; apply lookup_empty.
Qed.

Lemma emails_run_more (self : Validator) (t : emails_task) :
  emails_run 4 self t = emails_run 3 self t.
Proof. destruct t; split_passes; reflexivity. Qed.

Lemma emails_run_ends (self : Validator) (t : emails_task) :
  ∃ r, (emails_run 3 self t).2 = Returned r.
Proof. destruct t; split_passes; eauto. Qed.

Lemma emails_run_start (self : Validator) :
  emails_run 3 self Start =
  let '(self', r) := validate_emails self in (self', Returned r).
Proof. split_passes; reflexivity. Qed.

(** One turn of the emails task and the credentials pass can be swapped. *)
Lemma resume_credentials_swap (self : Validator) (t : emails_task) :
  task_ok t →
  (let '(self1, t1) := emails_resume self t in
   let '(self2, rc) := validate_credentials self1 in (self2, t1, rc)) =
  (let '(self1, rc) := validate_credentials self in
   let '(self2, t1) := emails_resume self1 t in (self2, t1, rc)).
Proof.
  intros Ht. destruct t; split_passes; simplify_eq; try reflexivity;
    unfold cred_free in *; destruct_and?;
    do 2 f_equal; f_equal; apply union_swap; sep_keys.
Qed.

Lemma emails_run_S (n : nat) (self : Validator) (t : emails_task) :
  emails_run (S n) self t =
  emails_run n (emails_resume self t).1 (emails_resume self t).2.
Proof. cbn [emails_run]. by destruct (emails_resume self t). Qed.

(** Wherever the credentials pass falls among the turns of the emails task,
    the join sees what it sees when the credentials pass runs first. *)
Lemma gather_from (n : nat) (self : Validator) (t : emails_task) :
  task_ok t →
  (let '(self1, t1) := emails_run n self t in
   let '(self2, rc) := validate_credentials self1 in
   let '(self3, t3) := emails_run 3 self2 t1 in (self3, (task_result t3, rc))) =
  (let '(self2, rc) := validate_credentials self in
   let '(self3, t3) := emails_run 3 self2 t in (self3, (task_result t3, rc))).
Proof.
  revert self t. induction n as [|n IH]; intros self t Ht; [done|].
  rewrite emails_run_S.
  pose proof (emails_resume_ok self t Ht) as Ht'.
  pose proof (resume_credentials_swap self t Ht) as Hswap.
  destruct (emails_resume self t) as [self' t'] eqn:Hres. cbn [fst snd] in *.
  rewrite (IH self' t' Ht').
  destruct (validate_credentials self') as [self2' rc'].
  destruct (validate_credentials self) as [self1 rc].
  rewrite <- (emails_run_more self1 t), (emails_run_S 3 self1 t).
  destruct (emails_resume self1 t) as [self2 t1]. cbn [fst snd].
  cbv beta iota in Hswap. by simplify_eq.
Qed.

Lemma emails_run_returned (n : nat) (self : Validator) (r : bool) :
  emails_run n self (Returned r) = (self, Returned r).
Proof. induction n as [|n IH]; [done|]. by rewrite emails_run_S. Qed.

Lemma gather_credentials_first (n : nat) (self : Validator) :
  gather n self =
  let '(self1, rc) := validate_credentials self in
  let '(self2, re) := validate_emails self1 in (self2, (Some re, rc)).
Proof.
  unfold gather. rewrite (gather_from n self Start I).
  destruct (validate_credentials self) as [self1 rc].
  rewrite emails_run_start. by destruct (validate_emails self1).
Qed.

Lemma gather_emails_first (n : nat) (self : Validator) :
  gather n self =
  let '(self1, re) := validate_emails self in
  let '(self2, rc) := validate_credentials self1 in (self2, (Some re, rc)).
Proof.
  rewrite gather_credentials_first, <- (gather_credentials_first 3 self).
  unfold gather. rewrite emails_run_start.
  destruct (validate_emails self) as [self1 re].
  destruct (validate_credentials self1) as [self2 rc].
  by rewrite emails_run_returned.
Qed.

(** *** What a new validator holds after the join *)

Ltac validated_cases :=
  unfold validated; rewrite gather_credentials_first; unfold Validator_init;
  split_passes.

Lemma validated_username (n : nat) (d : MultiDict) :
  username (validated n d) = given "username" d.
Proof. validated_cases; reflexivity. Qed.

Lemma validated_password (n : nat) (d : MultiDict) :
  password (validated n d) = given "password" d.
Proof. validated_cases; reflexivity. Qed.

Lemma validated_kindle_email (n : nat) (d : MultiDict) :
  kindle_email (validated n d) =
  match given "kindleEmail" d with
  | Some address =>
      match validate_email address with
      | Some k =>
          if endswith k "@kindle.com" || endswith k "@free.kindle.com"
          then Some k else None
      | None => None
      end
  | None => None
  end.
Proof. validated_cases; reflexivity. Qed.

Lemma validated_notify_email (n : nat) (d : MultiDict) :
  notify_email (validated n d) =
  match given "notifyEmail" d with
  | Some address => validate_email address
  | None => None
  end.
Proof. validated_cases; reflexivity. Qed.

Lemma validated_error_username (n : nat) (d : MultiDict) :
  errors (validated n d) !! "username" =
  match given "username" d with Some _ => None | None => Some msg_username end.
Proof. validated_cases; reflexivity. Qed.

Lemma validated_error_password (n : nat) (d : MultiDict) :
  errors (validated n d) !! "password" =
  match given "password" d with Some _ => None | None => Some msg_password end.
Proof. validated_cases; reflexivity. Qed.

Lemma validated_error_kindle (n : nat) (d : MultiDict) :
  errors (validated n d) !! "kindleEmail" =
  match given "kindleEmail" d with
  | Some address =>
      match validate_email address with
      | Some k =>
          if endswith k "@kindle.com" || endswith k "@free.kindle.com"
          then None else Some msg_kindle_domain
      | None => Some msg_kindle_invalid
      end
  | None => Some msg_kindle_missing
  end.
Proof. validated_cases; reflexivity. Qed.

Lemma validated_error_notify (n : nat) (d : MultiDict) :
  errors (validated n d) !! "notifyEmail" =
  match given "notifyEmail" d with
  | Some address =>
      match validate_email address with
      | Some _ => None
      | None => Some msg_notify_invalid
      end
  | None => Some msg_notify_missing
  end.
Proof. validated_cases; reflexivity. Qed.

Lemma success_empty (self : Validator) :
  success self = true ↔ errors self = ∅.
Proof.
  unfold success. rewrite Nat.eqb_eq. split.
  - intros H. by apply map_size_empty_iff.
  - intros ->. by rewrite map_size_empty.
Qed.

Lemma success_nonempty (self : Validator) :
  success self = false ↔ errors self ≠ ∅.
Proof.
  rewrite <- success_empty. destruct (success self); split; congruence.
Qed.

(** The merged errors are those of the two passes put together. *)
Lemma validated_errors_merged (n : nat) (d : MultiDict) :
  errors (validated n d) =
  errors (validate_emails (Validator_init d)).1
  ∪ errors (validate_credentials (Validator_init d)).1.
Proof.
  unfold validated. rewrite gather_emails_first. unfold Validator_init.
  split_passes; rewrite !(right_id_L ∅ (∪)); reflexivity.
Qed.

(** *** The view, run on a request *)

(** [post] unfolded along its four paths. *)
Lemma request_eq (n : nat) (d : MultiDict) (table : list User) (w : Wallabag) :
  request n d table w =
  let v := validated n d in
  let u := constructed v in
  let c := count_named (username v) table in
  let e := errors v ∪ ∅ in
  if success v then
    if negb (Nat.eqb c 0) then
      (respond ({["user" := msg_user]} ∪ e) d [],
       state_after ({["user" := msg_user]} ∪ e) d [] table w
         [UserConstructed u; SessionEntered; Queried (username v) c;
          SessionLeft])
    else
      let '(granted, w') := get_token w u (password v) in
      if negb granted then
        (respond ({["auth" := msg_auth]} ∪ e) d [],
         state_after ({["auth" := msg_auth]} ∪ e) d [] table w'
           [UserConstructed u; SessionEntered; Queried (username v) c;
            TokenRequested u (password v) granted; SessionLeft])
      else
        (respond e [] [msg_registered],
         state_after e [] [msg_registered] (table ++ [u]) w'
           [UserConstructed u; SessionEntered; Queried (username v) c;
            TokenRequested u (password v) granted; Added u; Committed;
            SessionLeft])
  else (respond e d [], state_after e d [] table w []).
Proof.
  unfold request, post. fold (validated n d).
  generalize (validated n d). intros v.
  cbv beta zeta delta
    [mbind mret M_bind M_ret _set_data _add_errors _add_message _template
     with_view emit with_session session_count session_add session_commit
     wallabag_get_token view rows pending remote trace _errors _data
     _messages ViewBase_init respond state_after constructed].
  destruct (success v); [|reflexivity].
  destruct (negb (count_named (username v) table =? 0)%nat); [reflexivity|].
  destruct (get_token w _ _) as [[] w']; reflexivity.
Qed.

Lemma count_named_app (x : option string) (l1 l2 : list User) :
  count_named x (l1 ++ l2) = count_named x l1 + count_named x l2.
Proof. unfold count_named. by rewrite filter_app, length_app. Qed.

Lemma count_named_self (u : User) : count_named (name u) [u] = 1.
Proof.
  unfold count_named. rewrite filter_cons_True by done. reflexivity.
Qed.

(** Credentials that are missing or empty make the validation fail. *)
Lemma missing_credentials_fail (n : nat) (d : MultiDict) :
  given "username" d = None ∨ given "password" d = None →
  success (validated n d) = false.
Proof.
  intros H. apply success_nonempty. intros Hempty.
  pose proof (validated_error_username n d) as Hu.
  pose proof (validated_error_password n d) as Hp.
  rewrite Hempty, lookup_empty in Hu, Hp.
  destruct H as [H|H]; rewrite H in *; discriminate.
Qed.

(** A successful validation has found and accepted both addresses. *)
Lemma validator_fields_given (n : nat) (d : MultiDict) :
  success (validated n d) = true →
  ∃ ak k an e,
    given "kindleEmail" d = Some ak ∧ validate_email ak = Some k
    ∧ given "notifyEmail" d = Some an ∧ validate_email an = Some e
    ∧ kindle_email (validated n d) = Some k
    ∧ notify_email (validated n d) = Some e.
Proof.
  intros Hs. apply success_empty in Hs.
  pose proof (validated_error_kindle n d) as Hk.
  pose proof (validated_error_notify n d) as Hn.
  rewrite Hs, lookup_empty in Hk, Hn.
  rewrite validated_kindle_email, validated_notify_email.
  destruct (given "kindleEmail" d) as [ak|]; [|discriminate Hk].
  destruct (validate_email ak) as [k|] eqn:Hvk; [|discriminate Hk].
  destruct (endswith k "@kindle.com" || endswith k "@free.kindle.com");
    [|discriminate Hk].
  destruct (given "notifyEmail" d) as [an|]; [|discriminate Hn].
  destruct (validate_email an) as [e|] eqn:Hvn; [|discriminate Hn].
  by exists ak, k, an, e.
Qed.

Ltac not_in_trace :=
  let H := fresh in
  intros H;
  repeat (apply elem_of_cons in H as [H|H]; [discriminate H|]);
  by apply elem_of_nil in H.

Lemma request_rejected (n : nat) (d : MultiDict) (table : list User)
    (w : Wallabag) :
  success (validated n d) = true →
  count_named (username (validated n d)) table ≠ 0 →
  rejected_as_registered table w (request n d table w).
Proof.
  intros Hs Hc. rewrite request_eq. cbv zeta. rewrite Hs.
  apply Nat.eqb_neq in Hc. rewrite Hc. cbn [negb].
  apply success_empty in Hs. rewrite Hs, !(right_id_L ∅ (∪)).
  unfold rejected_as_registered, respond, state_after.
  cbn [fst snd vars_errors vars_messages rows remote trace].
  repeat split; intros; not_in_trace.
Qed.

(** C1. When validation passes, the username is not in the table and the
    wallabag server grants no token, the error mapping of the response is
    exactly the key [auth] with its message, the table is what it was,
    nothing was added to the session or committed, and no message is
    emitted. *)
Theorem issuance_failure_reports_auth (n : nat) (d : MultiDict)
    (table : list User) (w : Wallabag) :
  let v := validated n d in
  success v = true →
  count_named (username v) table = 0 →
  (get_token w (constructed v) (password v)).1 = false →
  let r := request n d table w in
  vars_errors r.1 = {["auth" := msg_auth]}
  ∧ rows r.2 = table
  ∧ pending r.2 = []
  ∧ (∀ u, Added u ∉ trace r.2)
  ∧ (Committed ∉ trace r.2)
  ∧ vars_messages r.1 = [].
Proof.
  intros v Hs Hc Hg r. subst r. rewrite request_eq. cbv zeta. fold v.
  rewrite Hs, Hc. cbn [Nat.eqb negb].
  destruct (get_token w (constructed v) (password v)) as [g w'].
  cbn [fst] in Hg. subst g. cbn [negb].
  apply success_empty in Hs. rewrite Hs, !(right_id_L ∅ (∪)).
  unfold respond, state_after.
  cbn [fst snd vars_errors vars_messages rows pending trace].
  repeat split; intros; not_in_trace.
Qed.

(** C2. When the validation is not successful, the response carries the
    validator's errors, which are not empty, and nothing outside the view
    is touched: no query, no token request, no insert, no commit (the trace
    is empty), the table and the remote service are what they were. *)
Theorem validation_failure_stops (n : nat) (d : MultiDict)
    (table : list User) (w : Wallabag) :
  let v := validated n d in
  success v = false →
  let r := request n d table w in
  vars_errors r.1 = errors v
  ∧ errors v ≠ ∅
  ∧ trace r.2 = []
  ∧ rows r.2 = table
  ∧ remote r.2 = w
  ∧ vars_messages r.1 = [].
Proof.
  intros v Hs r. subst r. rewrite request_eq. cbv zeta. fold v. rewrite Hs.
  unfold respond, state_after.
  cbn [fst snd vars_errors vars_messages rows remote trace].
  rewrite (right_id_L ∅ (∪)). by apply success_nonempty in Hs.
Qed.

(** C3. When the validated username is already in the table, the response
    carries the key [user] with the message "User is already registered",
    no token is requested and nothing is inserted.  In particular a request
    for the username of a registration that has just succeeded, on the
    table that registration left, ends this way. *)
Theorem registered_username_rejected (n : nat) (d : MultiDict)
    (table : list User) (w : Wallabag) :
  let v := validated n d in
  success v = true →
  (count_named (username v) table ≠ 0 →
   rejected_as_registered table w (request n d table w))
  ∧ (∀ n0 d0 table0 w0,
       let first := request n0 d0 table0 w0 in
       vars_messages first.1 = [msg_registered] →
       username (validated n0 d0) = username v →
       table = rows first.2 →
       rejected_as_registered table w (request n d table w)).
Proof.
  intros v Hs. split; [by apply request_rejected|].
  intros n0 d0 table0 w0 first Hmsg Hname Htable.
  apply request_rejected; [done|]. fold v. rewrite Htable.
  subst first. rewrite request_eq in Hmsg. rewrite request_eq.
  cbv zeta in Hmsg. cbv zeta.
  destruct (success (validated n0 d0)); [|discriminate Hmsg].
  destruct (negb _); [discriminate Hmsg|].
  destruct (get_token w0 _ _) as [[] w0']; [|discriminate Hmsg].
  cbn [negb snd state_after rows].
  rewrite count_named_app, <- Hname.
  change (username (validated n0 d0)) with (name (constructed (validated n0 d0))).
  rewrite count_named_self. lia.
Qed.

(** C4. After both passes, each of the four field names is a key of the
    errors exactly when the validator holds no value for the field, and
    [success] holds exactly when the errors are empty. *)
Theorem validator_invariant (n : nat) (d : MultiDict) :
  let v := validated n d in
  (is_Some (errors v !! "username") ↔ username v = None)
  ∧ (is_Some (errors v !! "password") ↔ password v = None)
  ∧ (is_Some (errors v !! "kindleEmail") ↔ kindle_email v = None)
  ∧ (is_Some (errors v !! "notifyEmail") ↔ notify_email v = None)
  ∧ (success v = true ↔ errors v = ∅).
Proof.
  intros v. subst v.
  rewrite validated_error_username, validated_error_password,
    validated_error_kindle, validated_error_notify, validated_username,
    validated_password, validated_kindle_email, validated_notify_email.
  repeat split; try apply success_empty;
    repeat case_match; try done;
    by intros [? [=]].
Qed.

(** C5, as the code has it.  A Kindle address that is given and
    syntactically valid is accepted (the address returned by the syntax
    validator stored, no error for the field) exactly when the returned
    address ends with "@kindle.com" or "@free.kindle.com" as the test of
    line 50 spells them, character for character; otherwise the field
    carries the domain error, not the syntax error.  The submitted string
    and the case of its letters play no part beyond what the syntax
    validator returns for it. *)
Theorem kindle_suffix_exact (n : nat) (d : MultiDict) (address k : string) :
  given "kindleEmail" d = Some address →
  validate_email address = Some k →
  let v := validated n d in
  let matches := endswith k "@kindle.com" || endswith k "@free.kindle.com" in
  (kindle_email v = Some k ∧ errors v !! "kindleEmail" = None ↔ matches = true)
  ∧ (matches = false →
     kindle_email v = None
     ∧ errors v !! "kindleEmail" = Some msg_kindle_domain
     ∧ errors v !! "kindleEmail" ≠ Some msg_kindle_invalid).
Proof.
  intros Hg Hv v matches. subst v matches.
  rewrite validated_kindle_email, validated_error_kindle, Hg, Hv.
  destruct (endswith k "@kindle.com" || endswith k "@free.kindle.com").
  - split; [by split|discriminate].
  - split; [|by intros _].
    split; [intros [[=] _]|discriminate].
Qed.

(** C6. A Kindle or notification address that is given and syntactically
    invalid gets the "not a valid email address" message of its field and
    not the domain message; the domain message is only ever given to an
    address the syntax validator accepted, the validity message only to one
    it refused. *)
Theorem invalid_email_reported (n : nat) (d : MultiDict) :
  let v := validated n d in
  (∀ a, given "kindleEmail" d = Some a → validate_email a = None →
     errors v !! "kindleEmail" = Some msg_kindle_invalid
     ∧ errors v !! "kindleEmail" ≠ Some msg_kindle_domain)
  ∧ (∀ a, given "notifyEmail" d = Some a → validate_email a = None →
     errors v !! "notifyEmail" = Some msg_notify_invalid
     ∧ errors v !! "notifyEmail" ≠ Some msg_kindle_domain)
  ∧ (errors v !! "kindleEmail" = Some msg_kindle_domain →
     ∃ a k, given "kindleEmail" d = Some a ∧ validate_email a = Some k)
  ∧ (errors v !! "kindleEmail" = Some msg_kindle_invalid →
     ∃ a, given "kindleEmail" d = Some a ∧ validate_email a = None).
Proof.
  intros v. subst v.
  rewrite validated_error_kindle, validated_error_notify.
  split; [|split; [|split]].
  - intros a Hg Hv. by rewrite Hg, Hv.
  - intros a Hg Hv. by rewrite Hg, Hv.
  - repeat case_match; try done; eauto.
  - repeat case_match; try done; eauto.
Qed.

(** C9. The two passes commute: wherever the credentials pass falls among
    the turns of the emails task, the validator after the join and the two
    results are the same, namely those of running the emails pass and then
    the credentials pass, and those of running them the other way round; and
    the merged errors of a new validator are the errors of both passes. *)
Theorem passes_commute (n m : nat) (self : Validator) (d : MultiDict) :
  gather n self = gather m self
  ∧ gather n self =
      (let '(self1, re) := validate_emails self in
       let '(self2, rc) := validate_credentials self1 in
       (self2, (Some re, rc)))
  ∧ gather n self =
      (let '(self1, rc) := validate_credentials self in
       let '(self2, re) := validate_emails self1 in
       (self2, (Some re, rc)))
  ∧ errors (gather n (Validator_init d)).1 =
      errors (validate_emails (Validator_init d)).1
      ∪ errors (validate_credentials (Validator_init d)).1.
Proof.
  repeat split.
  - by rewrite !gather_credentials_first.
  - apply gather_emails_first.
  - apply gather_credentials_first.
  - apply validated_errors_merged.
Qed.

(** C10. What the validator stores for an email field, and what the user
    that is constructed and inserted carries, is the address returned by
    the syntax validator for the submitted one, not the submitted string. *)
Theorem stored_address_is_normalised (n : nat) (d : MultiDict)
    (table : list User) (w : Wallabag) :
  let v := validated n d in
  let r := request n d table w in
  (∀ a k, given "notifyEmail" d = Some a → validate_email a = Some k →
     notify_email v = Some k)
  ∧ (∀ a k, given "kindleEmail" d = Some a → validate_email a = Some k →
     kindle_email v =
       if endswith k "@kindle.com" || endswith k "@free.kindle.com"
       then Some k else None)
  ∧ (vars_messages r.1 = [msg_registered] →
     ∃ ak k an e,
       given "kindleEmail" d = Some ak ∧ validate_email ak = Some k
       ∧ given "notifyEmail" d = Some an ∧ validate_email an = Some e
       ∧ rows r.2 = (table ++ [mkUser (username v) (Some k) (Some e)])%list).
Proof.
  intros v r. subst v r. repeat split.
  - intros a k Hg Hv. by rewrite validated_notify_email, Hg.
  - intros a k Hg Hv. by rewrite validated_kindle_email, Hg, Hv.
  - rewrite request_eq. cbv zeta. intros Hmsg.
    destruct (success (validated n d)) eqn:Hs; [|discriminate Hmsg].
    destruct (negb _); [discriminate Hmsg|].
    destruct (get_token w _ _) as [[] w']; [|discriminate Hmsg].
    cbn [negb snd state_after rows]. unfold constructed.
    pose proof (validator_fields_given n d Hs) as (ak & k & an & e & H).
    destruct H as (Hk & Hvk & Hn & Hvn & -> & ->). by exists ak, k, an, e.
Qed.

Lemma singleton_union_nonempty (k x : string) (m : gmap string string) :
  {[k := x]} ∪ m ≠ ∅.
Proof.
  intros H. assert (({[k := x]} ∪ m) !! k = Some x) as Hk
    by (apply lookup_union_Some_l, lookup_singleton_eq).
  by rewrite H, lookup_empty in Hk.
Qed.

(** C7, as the code has it.  A request ends in one of two ways: with no
    error, the message "User successfully registered", the staged data
    cleared and the user inserted; or with a non-empty error mapping, no
    message, nothing inserted, and the submitted form handed back as it was
    received, the password field included. *)
Theorem response_success_or_errors (n : nat) (d : MultiDict)
    (table : list User) (w : Wallabag) :
  let r := request n d table w in
  (vars_errors r.1 = ∅
   ∧ vars_messages r.1 = [msg_registered]
   ∧ vars_data r.1 = []
   ∧ rows r.2 = (table ++ [constructed (validated n d)])%list)
  ∨ (vars_errors r.1 ≠ ∅
     ∧ vars_messages r.1 = []
     ∧ vars_data r.1 = d
     ∧ getitem "password" (vars_data r.1) = getitem "password" d
     ∧ rows r.2 = table).
Proof.
  intros r. subst r. rewrite request_eq. cbv zeta.
  unfold respond, state_after.
  destruct (success (validated n d)) eqn:Hs.
  - destruct (negb _).
    + right. cbn [fst snd vars_errors vars_messages vars_data rows].
      repeat split. apply singleton_union_nonempty.
    + destruct (get_token w _ _) as [[] w']; cbn [negb].
      * left. cbn [fst snd vars_errors vars_messages vars_data rows].
        apply success_empty in Hs. rewrite Hs, (right_id_L ∅ (∪)).
        by repeat split.
      * right. cbn [fst snd vars_errors vars_messages vars_data rows].
        repeat split. apply singleton_union_nonempty.
  - right. cbn [fst snd vars_errors vars_messages vars_data rows].
    rewrite (right_id_L ∅ (∪)). apply success_nonempty in Hs.
    by repeat split.
Qed.

(** C8, as the code has it.  A request takes one of four courses.  The user
    object is made once the validation has succeeded, before the table is
    queried and before the token is requested (the request for the token
    takes it); it is added and committed at most once, after a token was
    granted for it; the rows that were in the table stay as they were. *)
Theorem user_lifecycle (n : nat) (d : MultiDict) (table : list User)
    (w : Wallabag) :
  let v := validated n d in
  let u := constructed v in
  let r := request n d table w in
  (success v = false ∧ trace r.2 = [] ∧ rows r.2 = table)
  ∨ (success v = true
     ∧ (∃ c, c ≠ 0
        ∧ trace r.2 = [UserConstructed u; SessionEntered;
                       Queried (username v) c; SessionLeft])
     ∧ rows r.2 = table)
  ∨ (success v = true
     ∧ trace r.2 = [UserConstructed u; SessionEntered;
                    Queried (username v) 0;
                    TokenRequested u (password v) false; SessionLeft]
     ∧ rows r.2 = table)
  ∨ (success v = true
     ∧ trace r.2 = [UserConstructed u; SessionEntered;
                    Queried (username v) 0;
                    TokenRequested u (password v) true; Added u; Committed;
                    SessionLeft]
     ∧ rows r.2 = (table ++ [u])%list).
Proof.
  intros v u r. subst r. rewrite request_eq. cbv zeta. fold v u.
  unfold state_after.
  destruct (success v); [|by left].
  right. destruct (count_named (username v) table =? 0)%nat eqn:Hc; cbn [negb].
  - apply Nat.eqb_eq in Hc. rewrite Hc. right.
    destruct (get_token w u (password v)) as [[] w']; cbn [negb snd trace rows].
    + by right.
    + by left.
  - apply Nat.eqb_neq in Hc. left. cbn [snd trace rows]. eauto.
Qed.

(** ** Further properties of the validator *)

Lemma validated_error_other (n : nat) (d : MultiDict) (k : string) :
  k ≠ "username" → k ≠ "password" → k ≠ "kindleEmail" → k ≠ "notifyEmail" →
  errors (validated n d) !! k = None.
Proof.
  intros Hu Hp Hk Hn.
  validated_cases;
    rewrite !lookup_union, ?lookup_insert_ne, ?lookup_empty by done;
    reflexivity.
Qed.

(** X1. The errors of a validator only ever name the four fields. *)
Theorem validated_errors_keys (n : nat) (d : MultiDict) :
  dom (errors (validated n d)) ⊆ field_names.
Proof.
  intros k Hk. apply elem_of_dom in Hk. unfold field_names.
  rewrite !elem_of_union, !elem_of_singleton.
  destruct (decide (k = "username")); [tauto|].
  destruct (decide (k = "password")); [tauto|].
  destruct (decide (k = "kindleEmail")); [tauto|].
  destruct (decide (k = "notifyEmail")); [tauto|].
  rewrite validated_error_other in Hk by done. by destruct Hk.
Qed.

Lemma given_spec (k : string) (d : MultiDict) (x : string) :
  given k d = Some x ↔ getitem k d = Some x ∧ x ≠ "".
Proof.
  unfold given. destruct (getitem k d) as [[|c y]|]; cbn; split;
    try (intros [[= <-] H]); try intros [= <-]; done.
Qed.

(** What a successful validation has found. *)
Lemma success_fields (n : nat) (d : MultiDict) :
  success (validated n d) = true →
  ∃ x p ak k an e,
    given "username" d = Some x ∧ given "password" d = Some p
    ∧ given "kindleEmail" d = Some ak ∧ validate_email ak = Some k
    ∧ endswith k "@kindle.com" || endswith k "@free.kindle.com" = true
    ∧ given "notifyEmail" d = Some an ∧ validate_email an = Some e.
Proof.
  intros Hempty. apply success_empty in Hempty.
  pose proof (validated_error_username n d) as Hu.
  pose proof (validated_error_password n d) as Hp.
  pose proof (validated_error_kindle n d) as Hk.
  pose proof (validated_error_notify n d) as Hn.
  rewrite Hempty, lookup_empty in Hu, Hp, Hk, Hn.
  destruct (given "username" d) as [x|]; [|discriminate Hu].
  destruct (given "password" d) as [p|]; [|discriminate Hp].
  destruct (given "kindleEmail" d) as [ak|]; [|discriminate Hk].
  destruct (validate_email ak) as [k|] eqn:Hvk; [|discriminate Hk].
  destruct (endswith k "@kindle.com" || endswith k "@free.kindle.com")
    eqn:Hends; [|discriminate Hk].
  destruct (given "notifyEmail" d) as [an|]; [|discriminate Hn].
  destruct (validate_email an) as [e|] eqn:Hvn; [|discriminate Hn].
  by exists x, p, ak, k, an, e.
Qed.

(** X2. The validation succeeds exactly when the username and the password
    are given, the Kindle address is given, syntactically valid and passes
    the suffix test on its normalised form, and the notification address is
    given and syntactically valid. *)
Theorem success_iff_fields (n : nat) (d : MultiDict) :
  success (validated n d) = true ↔
  is_Some (given "username" d)
  ∧ is_Some (given "password" d)
  ∧ (∃ a k, given "kindleEmail" d = Some a ∧ validate_email a = Some k
            ∧ endswith k "@kindle.com" || endswith k "@free.kindle.com" = true)
  ∧ (∃ a e, given "notifyEmail" d = Some a ∧ validate_email a = Some e).
Proof.
  split.
  - intros (x & p & ak & k & an & e & Hx & Hp & Hk & Hvk & Hends & Hn & Hvn)
      %success_fields.
    rewrite Hx, Hp. repeat split; eauto 6.
  - intros ([u Hu] & [p Hp] & (ak & k & Hk & Hvk & Hends) & (an & e & Hn & Hvn)).
    apply success_empty, map_eq. intros x. rewrite lookup_empty.
    destruct (decide (x = "username")) as [->|];
      [by rewrite validated_error_username, Hu|].
    destruct (decide (x = "password")) as [->|];
      [by rewrite validated_error_password, Hp|].
    destruct (decide (x = "kindleEmail")) as [->|];
      [by rewrite validated_error_kindle, Hk, Hvk, Hends|].
    destruct (decide (x = "notifyEmail")) as [->|];
      [by rewrite validated_error_notify, Hn, Hvn|].
    by apply validated_error_other.
Qed.

(** X3. The two passes return whether they found no error, and the verdict
    after the join is the conjunction of what they return. *)
Theorem success_is_both_results (n : nat) (d : MultiDict) :
  success (validated n d) =
  (validate_credentials (Validator_init d)).2
  && (validate_emails (Validator_init d)).2.
Proof.
  validated_cases; unfold success; cbn [errors]; vm_compute; reflexivity.
Qed.

(** X4. The credentials are kept as they were submitted: a username or a
    password of one character or more is stored unchanged, whatever it
    holds, and what is stored is the first value submitted for the field. *)
Theorem credentials_stored_verbatim (n : nat) (d : MultiDict) (x : string) :
  (getitem "username" d = Some x ∧ x ≠ "" ↔ username (validated n d) = Some x)
  ∧ (getitem "password" d = Some x ∧ x ≠ "" ↔
     password (validated n d) = Some x).
Proof.
  rewrite validated_username, validated_password.
  split; symmetry; apply given_spec.
Qed.

Lemma union_absorb (e m : gmap string string) : e ∪ (e ∪ m) = e ∪ m.
Proof. by rewrite (assoc_L (∪)), (idemp_L (∪)). Qed.

(** X5. Running a pass a second time on the validator it left changes
    nothing: the same values, the same errors, the same result. *)
Theorem passes_idempotent (self : Validator) :
  validate_credentials (validate_credentials self).1 = validate_credentials self
  ∧ validate_emails (validate_emails self).1 = validate_emails self.
Proof.
  split; split_passes; simplify_eq; try congruence;
    rewrite ?union_absorb; reflexivity.
Qed.

(** ** Further properties of the view *)

Lemma validated_any_turn (n m : nat) (d : MultiDict) :
  validated n d = validated m d.
Proof. unfold validated. by rewrite !gather_credentials_first. Qed.

(** X6. What a request answers and what it leaves behind do not depend on
    where the event loop ran the credentials pass. *)
Theorem request_any_turn (n m : nat) (d : MultiDict) (table : list User)
    (w : Wallabag) :
  request n d table w = request m d table w.
Proof. by rewrite !request_eq, (validated_any_turn n m). Qed.

Lemma count_named_zero (x : option string) (table : list User) :
  count_named x table = 0 ↔ x ∉ name <$> table.
Proof.
  unfold count_named. induction table as [|u table IH]; [by split; [intros _ []%elem_of_nil|]|].
  rewrite fmap_cons, not_elem_of_cons, <- IH.
  destruct (decide (name u = x)) as [Hu|Hu].
  - rewrite filter_cons_True by done. cbn. split; [discriminate|]. by intros [[] _].
  - rewrite filter_cons_False by done. split; [by split|by intros [_ ?]].
Qed.

(** Either the table is what it was, or the request registered the user it
    made, whose name was not in the table. *)
Lemma request_rows (n : nat) (d : MultiDict) (table : list User) (w : Wallabag) :
  let v := validated n d in
  let r := request n d table w in
  (rows r.2 = table ∧ vars_messages r.1 = [])
  ∨ (rows r.2 = (table ++ [constructed v])%list
     ∧ vars_messages r.1 = [msg_registered]
     ∧ success v = true
     ∧ count_named (username v) table = 0
     ∧ (get_token w (constructed v) (password v)).1 = true).
Proof.
  intros v r. subst r. rewrite request_eq. cbv zeta. fold v.
  unfold respond, state_after.
  destruct (success v); [|by left].
  destruct (count_named (username v) table =? 0)%nat eqn:Hc; cbn [negb];
    [|by left].
  apply Nat.eqb_eq in Hc.
  destruct (get_token w (constructed v) (password v)) as [[] w'];
    cbn [negb fst snd rows vars_messages]; [by right|by left].
Qed.

(** X7. The stage keys tell the stage: [user] is reported exactly when the
    validation passed and the name was in the table, [auth] exactly when the
    validation passed, the name was free and no token was granted; and a
    response that carries one of them carries nothing else. *)
Theorem stage_keys_tell_stage (n : nat) (d : MultiDict) (table : list User)
    (w : Wallabag) :
  let v := validated n d in
  let r := request n d table w in
  (is_Some (vars_errors r.1 !! "user") ↔
   success v = true ∧ count_named (username v) table ≠ 0)
  ∧ (is_Some (vars_errors r.1 !! "auth") ↔
     success v = true ∧ count_named (username v) table = 0
     ∧ (get_token w (constructed v) (password v)).1 = false)
  ∧ (vars_errors r.1 = {["user" := msg_user]}
     ∨ vars_errors r.1 = {["auth" := msg_auth]}
     ∨ vars_errors r.1 = errors v).
Proof.
  intros v r. subst r. rewrite request_eq. cbv zeta. fold v.
  unfold respond. rewrite (right_id_L ∅ (∪)).
  destruct (success v) eqn:Hs.
  - apply success_empty in Hs. rewrite Hs, !(right_id_L ∅ (∪)).
    destruct (count_named (username v) table =? 0)%nat eqn:Hc; cbn [negb].
    + apply Nat.eqb_eq in Hc.
      destruct (get_token w (constructed v) (password v)) as [[] w'];
        cbn [negb fst vars_errors];
        rewrite ?lookup_empty, ?lookup_singleton_eq;
        rewrite ?lookup_singleton_ne by done;
        (split_and!; [rewrite is_Some_alt; intuition congruence..|auto]).
    + apply Nat.eqb_neq in Hc. cbn [fst vars_errors].
      rewrite ?lookup_singleton_eq; rewrite ?lookup_singleton_ne by done;
        (split_and!; [rewrite is_Some_alt; intuition congruence..|auto]).
  - cbn [fst vars_errors]. unfold v.
    rewrite !validated_error_other by done.
    split_and!; [rewrite is_Some_alt; intuition congruence..|auto].
Qed.

(** X8. A request registers a user exactly when the validation passed, the
    name was not in the table and a token was granted; and it is exactly
    then that the table changes. *)
Theorem registered_iff (n : nat) (d : MultiDict) (table : list User)
    (w : Wallabag) :
  let v := validated n d in
  let r := request n d table w in
  (vars_messages r.1 = [msg_registered] ↔
   success v = true ∧ count_named (username v) table = 0
   ∧ (get_token w (constructed v) (password v)).1 = true)
  ∧ (rows r.2 ≠ table ↔ vars_messages r.1 = [msg_registered]).
Proof.
  intros v r.
  assert (∀ u : User, (table ++ [u])%list ≠ table) as Hgrow.
  { intros u H. apply (f_equal List.length) in H.
    rewrite length_app in H. cbn in H. lia. }
  split.
  - split.
    + destruct (request_rows n d table w) as [[_ Hm]|(_ & _ & ? & ? & ?)];
        [fold r in Hm; rewrite Hm; discriminate|done].
    + intros (Hs & Hc & Hg). subst r. rewrite request_eq. cbv zeta. fold v.
      rewrite Hs, Hc. cbn [Nat.eqb negb].
      destruct (get_token w (constructed v) (password v)) as [g w'].
      cbn [fst] in Hg. by subst g.
  - destruct (request_rows n d table w) as [[Hr Hm]|(Hr & Hm & _)];
      fold r in Hr, Hm; rewrite Hr, Hm; split; done.
Qed.

(** X9. The user that a request registers carries the submitted username, of
    one character or more and not yet in the table, a Kindle address that
    passes the suffix test, and a notification address. *)
Theorem registered_user_well_formed (n : nat) (d : MultiDict)
    (table : list User) (w : Wallabag) :
  let r := request n d table w in
  vars_messages r.1 = [msg_registered] →
  ∃ x k e,
    rows r.2 = (table ++ [mkUser (Some x) (Some k) (Some e)])%list
    ∧ getitem "username" d = Some x ∧ x ≠ ""
    ∧ (Some x ∉ name <$> table)
    ∧ endswith k "@kindle.com" || endswith k "@free.kindle.com" = true.
Proof.
  intros r Hmsg.
  destruct (request_rows n d table w) as [[_ Hm]|(Hr & _ & Hs & Hc & _)];
    [fold r in Hm; rewrite Hm in Hmsg; discriminate Hmsg|].
  fold r in Hr. rewrite Hr. unfold constructed.
  apply count_named_zero in Hc.
  apply success_fields in Hs
    as (x & p & ak & k & an & e & Hx & _ & Hk & Hvk & Hends & Hn & Hvn).
  rewrite validated_username in Hc |- *.
  rewrite validated_kindle_email, validated_notify_email.
  rewrite Hx in Hc |- *. rewrite Hk, Hvk, Hends, Hn, Hvn.
  apply given_spec in Hx as [Hx Hne].
  by exists x, k, e.
Qed.

(** X10. A table in which no two rows have the same name is still such a
    table after a request. *)
Theorem unique_names_preserved (n : nat) (d : MultiDict) (table : list User)
    (w : Wallabag) :
  unique_names table → unique_names (rows (request n d table w).2).
Proof.
  unfold unique_names. intros Huniq.
  destruct (request_rows n d table w) as [[-> _]|(-> & _ & _ & Hc & _)];
    [done|].
  rewrite fmap_app. apply NoDup_app. repeat split; [done| |apply NoDup_singleton].
  intros x Hx [->|[]%elem_of_nil]%elem_of_cons.
  by apply count_named_zero in Hc.
Qed.

(** ** Requests one after the other *)

Lemma validated_data (n : nat) (d : MultiDict) : data (validated n d) = d.
Proof. validated_cases; reflexivity. Qed.

(** One request leaves the table as it was or puts one row at its end, a
    row with a new name and a Kindle address that passes the suffix test. *)
Lemma handle_rows (q : Request) (table : list User) (w : Wallabag) :
  rows (handle q table w).2 = table
  ∨ ∃ u, rows (handle q table w).2 = (table ++ [u])%list
         ∧ (name u ∉ name <$> table)
         ∧ kindle_mail_ok u = true.
Proof.
  destruct q as [|n d]; [by left|]. cbn [handle].
  destruct (request_rows n d table w) as [[Hr _]|(Hr & _ & Hs & Hc & _)];
    [by left|].
  right. exists (constructed (validated n d)). split; [done|].
  split; [by apply count_named_zero in Hc|].
  apply success_fields in Hs
    as (x & p & ak & k & an & e & _ & _ & Hk & Hvk & Hends & _).
  unfold kindle_mail_ok, constructed. cbn [kindle_mail].
  by rewrite validated_kindle_email, Hk, Hvk, Hends.
Qed.

Lemma serve_cons (q : Request) (qs : list Request) (table : list User)
    (w : Wallabag) :
  (serve (q :: qs) table w).2 =
  (serve qs (rows (handle q table w).2) (remote (handle q table w).2)).2
  ∧ List.length (serve (q :: qs) table w).1 =
    S (List.length (serve qs (rows (handle q table w).2)
                             (remote (handle q table w).2)).1).
Proof.
  cbn [serve]. destruct (handle q table w) as [r st]. cbn [snd].
  by destruct (serve qs (rows st) (remote st)).
Qed.

(** X11. However many requests are handled one after the other, each gets
    its response, the rows that were in the table stay where they were,
    unchanged, and at most one row is added for each request. *)
Theorem serve_only_appends (qs : list Request) (table : list User)
    (w : Wallabag) :
  List.length (serve qs table w).1 = List.length qs
  ∧ table `prefix_of` (serve qs table w).2.1
  ∧ (List.length (serve qs table w).2.1
     ≤ List.length table + List.length qs)%nat.
Proof.
  revert table w. induction qs as [|q qs IH]; intros table w.
  - cbn. split; [done|]. split; [done|lia].
  - destruct (serve_cons q qs table w) as [-> ->].
    destruct (IH (rows (handle q table w).2) (remote (handle q table w).2))
      as (IH1 & IH2 & IH3).
    rewrite IH1. split; [done|].
    destruct (handle_rows q table w) as [Hr|(u & Hr & _)]; rewrite Hr in *.
    + split; [done|]. cbn [List.length]. lia.
    + split; [by etrans; [apply prefix_app_r|exact IH2]|].
      rewrite length_app in IH3. cbn [List.length] in *. lia.
Qed.

(** X12. A table in which no two rows have the same name is still such a
    table after any number of requests handled one after the other. *)
Theorem serve_keeps_names_unique (qs : list Request) (table : list User)
    (w : Wallabag) :
  unique_names table → unique_names (serve qs table w).2.1.
Proof.
  unfold unique_names. revert table w.
  induction qs as [|q qs IH]; intros table w Huniq; [done|].
  destruct (serve_cons q qs table w) as [-> _]. apply IH.
  destruct (handle_rows q table w) as [->|(u & -> & Hu & _)]; [done|].
  rewrite fmap_app. apply NoDup_app.
  repeat split; [done| |apply NoDup_singleton].
  by intros x Hx [->|[]%elem_of_nil]%elem_of_cons.
Qed.

(** X13. If every row of the table has a Kindle address that passes the
    suffix test, so has every row after any number of requests. *)
Theorem serve_keeps_kindle_addresses (qs : list Request) (table : list User)
    (w : Wallabag) :
  Forall (λ u, kindle_mail_ok u = true) table →
  Forall (λ u, kindle_mail_ok u = true) (serve qs table w).2.1.
Proof.
  revert table w.
  induction qs as [|q qs IH]; intros table w Hok; [done|].
  destruct (serve_cons q qs table w) as [-> _]. apply IH.
  destruct (handle_rows q table w) as [->|(u & -> & _ & Hu)]; [done|].
  apply Forall_app. split; [done|]. by apply Forall_singleton.
Qed.

(** ** The passes and the view, piece by piece *)

(** X15. Each pass keeps to its own fields: the credentials pass leaves the
    two addresses and every error but those of [username] and [password] as
    they were, and the emails pass leaves the username, the password and
    every error but those of [kindleEmail] and [notifyEmail] as they were. *)
Theorem passes_keep_to_their_fields (self : Validator) (k : string) :
  (kindle_email (validate_credentials self).1 = kindle_email self
   ∧ notify_email (validate_credentials self).1 = notify_email self
   ∧ (k ≠ "username" → k ≠ "password" →
      errors (validate_credentials self).1 !! k = errors self !! k))
  ∧ (username (validate_emails self).1 = username self
     ∧ password (validate_emails self).1 = password self
     ∧ (k ≠ "kindleEmail" → k ≠ "notifyEmail" →
        errors (validate_emails self).1 !! k = errors self !! k)).
Proof.
  split; (split; [|split]); try (split_passes; reflexivity);
    intros H1 H2; split_passes;
    rewrite lookup_union, ?lookup_insert_ne, lookup_empty by done;
    by destruct (errors self !! k).
Qed.

(** X16. Errors added to the view in two steps are the errors of both, the
    later ones winning on a key they share; nothing else of the state is
    touched. *)
Theorem add_errors_twice (e1 e2 : gmap string string) (st : State) :
  (_add_errors e1;; _add_errors e2) st = _add_errors (e2 ∪ e1) st
  ∧ ∀ k x, e2 !! k = Some x →
      _errors (view ((_add_errors e1;; _add_errors e2) st).2) !! k = Some x.
Proof.
  split.
  - cbv [mbind M_bind _add_errors with_view view rows pending remote trace
         _errors _data _messages].
    by rewrite (assoc_L (∪)).
  - intros k x Hk.
    cbv [mbind M_bind _add_errors with_view view rows pending remote trace
         _errors _data _messages snd].
    by apply lookup_union_Some_l.
Qed.

End Registration.

Arguments view {_} _.
Arguments rows {_} _.
Arguments pending {_} _.
Arguments remote {_} _.
Arguments trace {_} _.

(** ** The validator and the syntax validator *)

Lemma Validator_eq (a b : Validator) :
  data a = data b → errors a = errors b → username a = username b →
  password a = password b → kindle_email a = kindle_email b →
  notify_email a = notify_email b → a = b.
Proof. destruct a, b; cbn; intros; by subst. Qed.

(** X14. The validator consults the syntax validator on the Kindle address
    and the notification address that are given, and on nothing else: two
    syntax validators that agree on these lead to the same validator.  A
    field that is missing or empty never reaches the syntax validator. *)
Theorem syntax_validator_only_on_given (f g : string → option string)
    (n : nat) (d : MultiDict) :
  (∀ a, given "kindleEmail" d = Some a → f a = g a) →
  (∀ a, given "notifyEmail" d = Some a → f a = g a) →
  validated f n d = validated g n d.
Proof.
  intros Hk Hn.
  assert (match given "kindleEmail" d with Some a => f a | None => None end =
          match given "kindleEmail" d with Some a => g a | None => None end)
    as Hk' by (destruct (given "kindleEmail" d); auto).
  assert (match given "notifyEmail" d with Some a => f a | None => None end =
          match given "notifyEmail" d with Some a => g a | None => None end)
    as Hn' by (destruct (given "notifyEmail" d); auto).
  apply Validator_eq.
  - by rewrite !validated_data.
  - apply map_eq. intros x.
    destruct (decide (x = "username")) as [->|];
      [by rewrite !validated_error_username|].
    destruct (decide (x = "password")) as [->|];
      [by rewrite !validated_error_password|].
    destruct (decide (x = "kindleEmail")) as [->|].
    { rewrite !validated_error_kindle.
      destruct (given "kindleEmail" d); [by rewrite Hk'|done]. }
    destruct (decide (x = "notifyEmail")) as [->|].
    { rewrite !validated_error_notify.
      destruct (given "notifyEmail" d); [by rewrite Hn'|done]. }
    by rewrite !validated_error_other.
  - by rewrite !validated_username.
  - by rewrite !validated_password.
  - rewrite !validated_kindle_email.
    destruct (given "kindleEmail" d); [by rewrite Hk'|done].
  - rewrite !validated_notify_email.
    destruct (given "notifyEmail" d); [exact Hn'|done].
Qed.

(** ** The theorems at concrete requests

    The view is run with the stand-ins: [stub_validate_email] for the syntax
    validator, [stub_get_token] for the wallabag server (its state is the
    number of requests it has seen), on the forms defined above. *)

(** Bob's password is refused by the server: the response carries [auth]
    alone and the table stays empty. *)
Lemma issuance_failure_witness :
  let r := request stub_validate_email nat stub_get_token "wallabag.example"
             ["kindle"] 1 bob_form [] 0 in
  vars_errors r.1 = {["auth" := msg_auth]}
  ∧ rows r.2 = []
  ∧ pending r.2 = []
  ∧ (∀ u, Added u ∉ trace r.2)
  ∧ (Committed ∉ trace r.2)
  ∧ vars_messages r.1 = [].
Proof.
  apply (issuance_failure_reports_auth stub_validate_email nat stub_get_token
           "wallabag.example" ["kindle"] 1 bob_form [] 0);
    vm_compute; reflexivity.
Defined.

(** A form with an empty username: nothing outside the view is touched. *)
Lemma validation_failure_witness :
  let v := validated stub_validate_email 1 broken_form in
  let r := request stub_validate_email nat stub_get_token "wallabag.example"
             ["kindle"] 1 broken_form [alice_user] 7 in
  vars_errors r.1 = errors v
  ∧ errors v ≠ ∅
  ∧ trace r.2 = []
  ∧ rows r.2 = [alice_user]
  ∧ remote r.2 = 7
  ∧ vars_messages r.1 = [].
Proof.
  apply (validation_failure_stops stub_validate_email nat stub_get_token
           "wallabag.example" ["kindle"] 1 broken_form [alice_user] 7).
  vm_compute. reflexivity.
Defined.

(** Alice registers on an empty table; her second request, on the table the
    first one left, is rejected without a token request. *)
Lemma registered_username_witness :
  let first := request stub_validate_email nat stub_get_token
                 "wallabag.example" ["kindle"] 1 alice_form [] 0 in
  rejected_as_registered nat [alice_user] 3
    (request stub_validate_email nat stub_get_token "wallabag.example"
       ["kindle"] 1 alice_form [alice_user] 3)
  ∧ rejected_as_registered nat (rows first.2) (remote first.2)
      (request stub_validate_email nat stub_get_token "wallabag.example"
         ["kindle"] 2 alice_form (rows first.2) (remote first.2)).
Proof.
  intros first. split.
  - apply (registered_username_rejected stub_validate_email nat stub_get_token
             "wallabag.example" ["kindle"] 1 alice_form [alice_user] 3).
    + vm_compute. reflexivity.
    + vm_compute. discriminate.
  - assert (success (validated stub_validate_email 2 alice_form) = true)
      as Hs by (vm_compute; reflexivity).
    destruct (registered_username_rejected stub_validate_email nat
                stub_get_token "wallabag.example" ["kindle"] 2 alice_form
                (rows first.2) (remote first.2) Hs) as [_ Hsecond].
    apply (Hsecond 1 alice_form [] 0); vm_compute; reflexivity.
Defined.

(** Carol's Kindle address, written with capitals, comes back from the
    syntax validator in lower case and is accepted in that form; an address
    at another domain gets the domain error. *)
Lemma kindle_suffix_exact_witness :
  (let v := validated stub_validate_email 1 carol_form in
   kindle_email v = Some "Bob@free.kindle.com"
   ∧ errors v !! "kindleEmail" = None)
  ∧ (let v := validated stub_validate_email 1
                [("kindleEmail", "alice@example.com")] in
     kindle_email v = None
     ∧ errors v !! "kindleEmail" = Some msg_kindle_domain
     ∧ errors v !! "kindleEmail" ≠ Some msg_kindle_invalid).
Proof.
  split.
  - apply (kindle_suffix_exact stub_validate_email 1 carol_form
             "Bob@Free.Kindle.COM" "Bob@free.kindle.com" eq_refl eq_refl).
    reflexivity.
  - apply (kindle_suffix_exact stub_validate_email 1
             [("kindleEmail", "alice@example.com")]
             "alice@example.com" "alice@example.com" eq_refl eq_refl).
    reflexivity.
Defined.

(** Two strings that are not addresses: each field gets its validity
    message. *)
Lemma invalid_email_witness :
  let v := validated stub_validate_email 1 broken_form in
  (errors v !! "kindleEmail" = Some msg_kindle_invalid
   ∧ errors v !! "kindleEmail" ≠ Some msg_kindle_domain)
  ∧ (errors v !! "notifyEmail" = Some msg_notify_invalid
     ∧ errors v !! "notifyEmail" ≠ Some msg_kindle_domain).
Proof.
  pose proof (invalid_email_reported stub_validate_email 1 broken_form)
    as (Hk & Hn & _).
  split.
  - apply (Hk "nonsense"); reflexivity.
  - apply (Hn "also nonsense"); reflexivity.
Defined.

(** Carol's addresses are stored, and inserted, as the syntax validator
    returned them, which is not as she wrote them. *)
Lemma stored_address_witness :
  let v := validated stub_validate_email 1 carol_form in
  let r := request stub_validate_email nat stub_get_token "wallabag.example"
             ["kindle"] 1 carol_form [] 0 in
  notify_email v = Some "Carol@example.org"
  ∧ notify_email v ≠ getitem "notifyEmail" carol_form
  ∧ kindle_email v = Some "Bob@free.kindle.com"
  ∧ kindle_email v ≠ getitem "kindleEmail" carol_form
  ∧ rows r.2 = [mkUser (Some "carol") (Some "Bob@free.kindle.com")
                       (Some "Carol@example.org")].
Proof.
  pose proof (stored_address_is_normalised stub_validate_email nat
                stub_get_token "wallabag.example" ["kindle"] 1 carol_form [] 0)
    as (Hn & Hk & Hr).
  pose proof (Hn "Carol@Example.ORG" "Carol@example.org" eq_refl eq_refl) as Hn'.
  pose proof (Hk "Bob@Free.Kindle.COM" "Bob@free.kindle.com" eq_refl eq_refl)
    as Hk'.
  destruct (Hr eq_refl) as (ak & k & an & e & H1 & H2 & H3 & H4 & H5).
  injection H1 as <-. injection H3 as <-.
  injection H2 as <-. injection H4 as <-.
  split; [exact Hn'|].
  split; [rewrite Hn'; discriminate|].
  split; [exact Hk'|].
  split; [rewrite Hk'; vm_compute; discriminate|].
  exact H5.
Defined.

(** A form without a Kindle address: the validator is the same whether the
    syntax validator normalises or hands addresses back as they came. *)
Lemma syntax_validator_witness :
  validated stub_validate_email 1
    [("username", "alice"); ("notifyEmail", "alice@example.com")]
  = validated stub_validate_raw 1
      [("username", "alice"); ("notifyEmail", "alice@example.com")].
Proof.
  apply (syntax_validator_only_on_given stub_validate_email stub_validate_raw 1
           [("username", "alice"); ("notifyEmail", "alice@example.com")]).
  - intros a H. vm_compute in H. discriminate H.
  - intros a H. vm_compute in H. injection H as <-. reflexivity.
Defined.

(** Carol registers on a table that holds Alice. *)
Lemma registered_user_witness :
  ∃ x k e,
    rows (request stub_validate_email nat stub_get_token "wallabag.example"
            ["kindle"] 1 carol_form [alice_user] 0).2
    = ([alice_user] ++ [mkUser (Some x) (Some k) (Some e)])%list
    ∧ getitem "username" carol_form = Some x ∧ x ≠ ""
    ∧ (Some x ∉ name <$> [alice_user])
    ∧ endswith k "@kindle.com" || endswith k "@free.kindle.com" = true.
Proof.
  apply (registered_user_well_formed stub_validate_email nat stub_get_token
           "wallabag.example" ["kindle"] 1 carol_form [alice_user] 0).
  vm_compute. reflexivity.
Defined.

Lemma unique_names_witness :
  unique_names
    (rows (request stub_validate_email nat stub_get_token "wallabag.example"
             ["kindle"] 1 carol_form [alice_user] 0).2).
Proof.
  apply (unique_names_preserved stub_validate_email nat stub_get_token
           "wallabag.example" ["kindle"] 1 carol_form [alice_user] 0).
  unfold unique_names. cbn. apply NoDup_singleton.
Defined.

(** Five requests in a row on an empty table: Alice, a look at the page,
    Alice again, Carol, and Bob with the wrong password. *)
Lemma serve_names_witness :
  unique_names
    (serve stub_validate_email nat stub_get_token "wallabag.example" ["kindle"]
       [POST 1 alice_form; GET; POST 2 alice_form; POST 0 carol_form;
        POST 1 bob_form] [] 0).2.1.
Proof.
  apply (serve_keeps_names_unique stub_validate_email nat stub_get_token
           "wallabag.example" ["kindle"]).
  unfold unique_names. cbn. apply NoDup_nil_2.
Defined.

Lemma serve_kindle_witness :
  Forall (λ u, kindle_mail_ok u = true)
    (serve stub_validate_email nat stub_get_token "wallabag.example" ["kindle"]
       [POST 1 carol_form; GET; POST 1 bob_form] [alice_user] 0).2.1.
Proof.
  apply (serve_keeps_kindle_addresses stub_validate_email nat stub_get_token
           "wallabag.example" ["kindle"]).
  apply Forall_singleton. vm_compute. reflexivity.
Defined.

Lemma passes_fields_witness :
  errors (validate_credentials (Validator_init broken_form)).1 !! "kindleEmail"
  = errors (Validator_init broken_form) !! "kindleEmail"
  ∧ errors (validate_emails stub_validate_email
              (Validator_init broken_form)).1 !! "username"
    = errors (Validator_init broken_form) !! "username".
Proof.
  destruct (passes_keep_to_their_fields stub_validate_email
              (Validator_init broken_form) "kindleEmail") as [(_ & _ & H1) _].
  destruct (passes_keep_to_their_fields stub_validate_email
              (Validator_init broken_form) "username") as [_ (_ & _ & H2)].
  split; [apply H1|apply H2]; discriminate.
Defined.

Lemma add_errors_witness :
  _errors
    (view (M_bind nat _ _ (λ _, _add_errors nat {["user" := "second"]})
             (_add_errors nat {["user" := "first"]})
             (mkState nat (ViewBase_init) [] [] 0 [])).2)
  !! "user" = Some "second".
Proof.
  apply (add_errors_twice nat {["user" := "first"]} {["user" := "second"]}).
  reflexivity.
Defined.

(** ** Where the code does otherwise *)

(** C5 as stated fails, whichever address "the full address" is.  Read of
    the address the syntax validator returns: an address returned with a
    capital in its domain ends with "@kindle.com" when case is disregarded,
    and is refused.  Read of the address that was submitted: an address
    submitted with an ideographic full stop ends with neither suffix in any
    case, and is accepted, because what the syntax validator returns for it
    does. *)
Lemma kindle_suffix_not_case_insensitive :
  ¬ (kindle_email (validated stub_validate_raw 1
                     [("kindleEmail", "a@Kindle.com")]) = Some "a@Kindle.com"
     ∧ errors (validated stub_validate_raw 1
                 [("kindleEmail", "a@Kindle.com")]) !! "kindleEmail" = None
     ↔ iendswith "a@Kindle.com" "@kindle.com"
       || iendswith "a@Kindle.com" "@free.kindle.com" = true)
  ∧ ¬ (kindle_email (validated stub_validate_folding 1
                       [("kindleEmail", "a@kindle。com")]) = Some "a@kindle.com"
       ∧ errors (validated stub_validate_folding 1
                   [("kindleEmail", "a@kindle。com")]) !! "kindleEmail" = None
       ↔ iendswith "a@kindle。com" "@kindle.com"
         || iendswith "a@kindle。com" "@free.kindle.com" = true).
Proof.
  split.
  - intros [_ H]. destruct (H eq_refl) as [Hk _].
    vm_compute in Hk. discriminate Hk.
  - intros [H _].
    assert (iendswith "a@kindle。com" "@kindle.com"
            || iendswith "a@kindle。com" "@free.kindle.com" = true) as Hm
      by (apply H; split; vm_compute; reflexivity).
    vm_compute in Hm. discriminate Hm.
Qed.

(** C7 as stated fails: Bob's request fails, and the data handed to the
    template still holds his password. *)
Lemma failed_response_keeps_password :
  ¬ (vars_errors (request stub_validate_email nat stub_get_token
                    "wallabag.example" ["kindle"] 1 bob_form [] 0).1 ≠ ∅ →
     getitem "password"
       (vars_data (request stub_validate_email nat stub_get_token
                     "wallabag.example" ["kindle"] 1 bob_form [] 0).1) = None).
Proof.
  intros H.
  assert (getitem "password"
            (vars_data (request stub_validate_email nat stub_get_token
                          "wallabag.example" ["kindle"] 1 bob_form [] 0).1)
          = Some "wrong") as Hpw by (vm_compute; reflexivity).
  rewrite H in Hpw; [discriminate Hpw|].
  intros Hempty.
  assert (vars_errors (request stub_validate_email nat stub_get_token
                         "wallabag.example" ["kindle"] 1 bob_form [] 0).1
          !! "auth" = Some msg_auth) as Hauth by (vm_compute; reflexivity).
  rewrite Hempty in Hauth. discriminate Hauth.
Qed.

(** C8 as stated fails: in Alice's registration the user object is made
    first, and the token is requested for it afterwards. *)
Lemma user_constructed_before_token :
  ¬ constructed_after_token
      (trace (request stub_validate_email nat stub_get_token
                "wallabag.example" ["kindle"] 1 alice_form [] 0).2).
Proof.
  intros H.
  assert (trace (request stub_validate_email nat stub_get_token
                   "wallabag.example" ["kindle"] 1 alice_form [] 0).2 !! 0
          = Some (UserConstructed alice_user)) as H0
    by (vm_compute; reflexivity).
  destruct (H 0 alice_user H0) as (j & u' & p & Hj & _). lia.
Qed.

(** The suffix test itself is exact: handed an address with a capital in its
    domain by a syntax validator that changes nothing, the validator refuses
    it.  Case is only disregarded in so far as the syntax validator
    lower-cases the domain. *)
Example suffix_test_is_exact :
  errors (validated stub_validate_raw 1 [("kindleEmail", "a@Kindle.com")])
    !! "kindleEmail" = Some msg_kindle_domain.
Proof. reflexivity. Qed.
